(** * puzzle2rsvp: the puzzle-gated RSVP server

    A shallow embedding of the request handlers of the Puzzle RSVP server:
    the example verifier, the verifier barrel, the three guest-facing
    routes ([POST /api/puzzle/:slug/verify], [POST /api/rsvp/:token],
    [GET /api/invite/:token]) and the health check of [server/index.js].

    JavaScript values are modelled as the JSON values [express.json()]
    produces, plus [undefined]; strings are sequences of UTF-16 code
    units.  A handler is a computation in a small state-and-exception
    monad over the invite table; every call it makes to the database
    helpers or to a verifier is recorded in a log, so that statements such
    as "the verifier is not invoked" can be made about the run itself. *)

From Stdlib Require Import ZArith NArith String Ascii List.
From stdpp Require Import base option list gmap.

Local Open Scope Z_scope.

(* ===================================================================== *)
(** ** JavaScript values *)
(* ===================================================================== *)

Module JS.

(** A string is its sequence of UTF-16 code units. *)
Definition jsstring := list N.

(** A string literal of the source (ASCII only). *)
Definition js (s : string) : jsstring :=
  List.map N_of_ascii (list_ascii_of_string s).
Arguments js : simpl never.

(** What a handler can receive in a parsed JSON body, and [undefined] for
    a member that is not there.  The numeric carrier is never inspected by
    the code modelled here. *)
#[warnings="-register-all"] Inductive value : Type :=
  | JUndefined
  | JNull
  | JBool (b : bool)
  | JNum (n : Z)
  | JStr (s : jsstring)
  | JArr (items : list value)
  | JObj (members : list (jsstring * value)).

(** What can be thrown. [Thrown v] is a [throw v] of user code. *)
Inductive exn : Type :=
  | TypeError
  | InviteNotFound
  | Thrown (v : value).

(** The completion of an evaluation: a value, or an exception in flight. *)
Inductive Completion (A : Type) : Type :=
  | Normal (a : A)
  | Throw (e : exn).
Arguments Normal {A} a.
Arguments Throw {A} e.

#[global] Instance Completion_ret : MRet Completion := @Normal.
#[global] Instance Completion_bind : MBind Completion :=
  λ A B f c, match c with Normal a => f a | Throw e => Throw e end.

(** Own property of an object created by [JSON.parse]. *)
Fixpoint own_member (members : list (jsstring * value)) (key : jsstring)
  : value :=
  match members with
  | [] => JUndefined
  | (k, v) :: rest => if decide (k = key) then v else own_member rest key
  end.

(** [v.key] for a key that no prototype defines: a [TypeError] on [null]
    and [undefined], the own property of an object, [undefined] on the
    primitives and on arrays. *)
Definition member (v : value) (key : jsstring) : Completion value :=
  match v with
  | JUndefined | JNull => Throw TypeError
  | JObj members => Normal (own_member members key)
  | _ => Normal JUndefined
  end.

(** Truthiness of the integer a SQLite INTEGER column reads as. *)
Definition truthy (n : Z) : bool := negb (n =? 0).

(** [v === lit] against a string literal. *)
Definition strict_eq_str (v : value) (lit : jsstring) : bool :=
  match v with
  | JStr s => bool_decide (s = lit)
  | _ => false
  end.

(** *** [String.prototype.trim] *)

(** WhiteSpace and LineTerminator code points of ECMAScript; all of them
    are single code units. *)
Definition WhiteSpace : list N :=
  [ 0x0009; 0x000B; 0x000C; 0x0020; 0x00A0; 0x1680;
    0x2000; 0x2001; 0x2002; 0x2003; 0x2004; 0x2005; 0x2006; 0x2007;
    0x2008; 0x2009; 0x200A; 0x202F; 0x205F; 0x3000; 0xFEFF ]%N.

Definition LineTerminator : list N := [ 0x000A; 0x000D; 0x2028; 0x2029 ]%N.

Definition is_trimmed_unit (c : N) : bool :=
  existsb (N.eqb c) (WhiteSpace ++ LineTerminator).

Fixpoint trimStart (s : jsstring) : jsstring :=
  match s with
  | [] => []
  | c :: rest => if is_trimmed_unit c then trimStart rest else s
  end.

Definition trimEnd (s : jsstring) : jsstring := rev (trimStart (rev s)).

Definition trim (s : jsstring) : jsstring := trimEnd (trimStart s).

(** *** The host's built-ins that are taken as given *)

(** Milliseconds since the epoch, as [Date] holds them. *)
Definition Time := Z.

(** [String.prototype.toLowerCase] (the Unicode default case conversion)
    and [Date.prototype.toISOString] are the platform's; the development
    is parametric in them. *)
Class Host : Type := {
  toLowerCase : jsstring → jsstring;
  toISOString : Time → jsstring;
}.

(** [v.trim()] and [v.toLowerCase()] on a value that is not nullish: the
    string method on a string; on anything else the member is not a
    function and the call is a [TypeError]. *)
Definition call_trim (v : value) : Completion value :=
  match v with
  | JStr s => Normal (JStr (trim s))
  | _ => Throw TypeError
  end.

Definition call_toLowerCase `{Host} (v : value) : Completion value :=
  match v with
  | JStr s => Normal (JStr (toLowerCase s))
  | _ => Throw TypeError
  end.

(** Optional chaining [v?.rest]: [undefined] when [v] is nullish, the
    rest of the chain applied to [v] otherwise. *)
Definition optional_chain (v : value) (rest : value → Completion value)
  : Completion value :=
  match v with
  | JUndefined | JNull => Normal JUndefined
  | _ => rest v
  end.

End JS.
Export JS.

(* ===================================================================== *)
(** ** The verifiers *)
(* ===================================================================== *)

Module Verifiers.

(** The verifier interface: [verify(submission) → boolean]; a verifier
    may also throw. *)
Abbreviation Verifier := (value → Completion bool).

Section WithHost.
Context `{Host}.

(** [verifiers/dinner-party-march-2026.js]:
<<
  export function verify(submission) {
    const normalized = submission.answer?.trim().toLowerCase();
    return normalized === "the stars align at midnight";
  }
>> *)
Definition verify : Verifier := λ submission,
  answer ← member submission (js "answer");
  normalized ← optional_chain answer (λ a,
                  t ← call_trim a; call_toLowerCase t);
  mret (strict_eq_str normalized (js "the stars align at midnight")).

(** [verifiers/index.js]: the barrel mapping event slugs to verifiers. *)
Definition verifiers : gmap jsstring Verifier :=
  {[ js "dinner-party-march-2026" := verify ]}.

End WithHost.
End Verifiers.
Export Verifiers.

(* ===================================================================== *)
(** ** The invite table *)
(* ===================================================================== *)

Module InviteStore.

(** [rsvp_status TEXT DEFAULT NULL]: NULL is no response (the [None] of
    the column), otherwise "accepted" or "declined". *)
Inductive RsvpStatus : Type := accepted | declined.

(** The columns of table [invites] besides its primary key [token]. *)
Record InviteRow : Type := {
  event_slug : jsstring;
  guest_name : jsstring;
  puzzle_solved : Z;                  (* INTEGER DEFAULT 0 *)
  rsvp_status : option RsvpStatus;
  rsvp_data : option value;           (* JSON blob, NULL by default *)
  created_at : Time;
  solved_at : option Time;
  rsvp_at : option Time;
}.

(** The object [db.getInvite] returns: a row with its key. *)
Record Invite : Type := {
  token : jsstring;
  columns :> InviteRow;
}.

(** [token] is the primary key: the table is a finite map from tokens. *)
Abbreviation Table := (gmap jsstring InviteRow).

(** How [upsertRsvp] obtains [rsvp_status] from a payload ("derived from
    payload or defaulted"); the rule itself is not given anywhere. *)
Class StatusRule : Type := status_of_payload : value → RsvpStatus.

Definition with_solved (now : Time) (r : InviteRow) : InviteRow :=
  {| event_slug := event_slug r; guest_name := guest_name r;
     puzzle_solved := 1;
     rsvp_status := rsvp_status r; rsvp_data := rsvp_data r;
     created_at := created_at r;
     solved_at := Some now;
     rsvp_at := rsvp_at r |}.

Definition with_rsvp `{StatusRule} (now : Time) (payload : value)
    (r : InviteRow) : InviteRow :=
  {| event_slug := event_slug r; guest_name := guest_name r;
     puzzle_solved := puzzle_solved r;
     rsvp_status := Some (status_of_payload payload);
     rsvp_data := Some payload;
     created_at := created_at r;
     solved_at := solved_at r;
     rsvp_at := Some now |}.

(** Modelled from the spec: [server/db.js] with its helpers [getInvite],
    [markSolved] and [upsertRsvp] is not in the repository (the plan lists
    them as still to be written).  "[get(token) → Invite | NotFound]". *)
Definition getInvite (token : jsstring) (tbl : Table) : option Invite :=
  (λ r, {| token := token; columns := r |}) <$> tbl !! token.

(** Modelled from the spec: the missing helper [markSolved] of
    [server/db.js].  "sets [puzzle_solved = true] and [solved_at = now]
    only if not already solved; idempotent — calling on an already-solved
    token is a harmless no-op". *)
Definition markSolved (now : Time) (token : jsstring) (tbl : Table) : Table :=
  match tbl !! token with
  | Some r => if truthy (puzzle_solved r) then tbl
              else <[token := with_solved now r]> tbl
  | None => tbl
  end.

(** Modelled from the spec: the missing helper [upsertRsvp] of
    [server/db.js].  "overwrites [rsvp_data] and sets [rsvp_status]
    (derived from payload or defaulted) and [rsvp_at = now].  Fails with
    [InviteNotFound] if token unknown.  Does not itself enforce the solved
    precondition". *)
Definition upsertRsvp `{StatusRule} (now : Time) (token : jsstring)
    (payload : value) (tbl : Table) : Completion Table :=
  match tbl !! token with
  | Some r => Normal (<[token := with_rsvp now payload r]> tbl)
  | None => Throw InviteNotFound
  end.

End InviteStore.
Export InviteStore.

(* ===================================================================== *)
(** ** Handlers as computations *)
(* ===================================================================== *)

Module Express.

(** A call a handler makes out of its own body. *)
Inductive Call : Type :=
  | CallGetInvite (token : jsstring)
  | CallMarkSolved (token : jsstring)
  | CallUpsertRsvp (token : jsstring) (payload : value)
  | CallVerifier (slug : jsstring) (submission : value).

(** What a handler runs against: the invite table, the wall clock that
    [new Date()] and the database's [now] read, and the calls made so
    far. *)
Record World : Type := {
  table : Table;
  clock : Time;
  log : list Call;
}.

Definition Handler (A : Type) : Type := World → Completion A * World.

#[global] Instance Handler_ret : MRet Handler := λ A a w, (Normal a, w).
#[global] Instance Handler_bind : MBind Handler := λ A B f m w,
  match m w with
  | (Normal a, w') => f a w'
  | (Throw e, w') => (Throw e, w')
  end.

(** A pure evaluation inside a handler. *)
Definition lift {A} (c : Completion A) : Handler A := λ w, (c, w).

Definition get_table : Handler Table := λ w, (Normal (table w), w).

Definition put_table (tbl : Table) : Handler () := λ w,
  (Normal (), {| table := tbl; clock := clock w; log := log w |}).

(** [new Date()], and the [now] of the database. *)
Definition new_Date : Handler Time := λ w, (Normal (clock w), w).

Definition record (c : Call) : Handler () := λ w,
  (Normal (), {| table := table w; clock := clock w; log := log w ++ [c] |}).

Definition db_getInvite (token : jsstring) : Handler (option Invite) :=
  record (CallGetInvite token);;
  tbl ← get_table;
  mret (getInvite token tbl).

Definition db_markSolved (token : jsstring) : Handler () :=
  record (CallMarkSolved token);;
  tbl ← get_table;
  now ← new_Date;
  put_table (markSolved now token tbl).

Definition db_upsertRsvp `{StatusRule} (token : jsstring) (payload : value)
  : Handler () :=
  record (CallUpsertRsvp token payload);;
  tbl ← get_table;
  now ← new_Date;
  tbl' ← lift (upsertRsvp now token payload tbl);
  put_table tbl'.

Definition call_verifier (slug : jsstring) (verifier : Verifier)
    (submission : value) : Handler bool :=
  record (CallVerifier slug submission);;
  lift (verifier submission).

(** What [res.status(n).json(body)] sends; [res.json(body)] alone sends
    it with status 200. *)
Record Response : Type := {
  status : Z;
  body : value;
}.

Definition res_status_json (n : Z) (b : value) : Handler Response :=
  mret {| status := n; body := b |}.

Definition res_json (b : value) : Handler Response := res_status_json 200 b.

(** One request served at wall-clock time [now] over table [tbl]: what
    the handler answered (or the exception that left it), the table
    afterwards, and the calls it made, in order. *)
Record Run : Type := {
  outcome : Completion Response;
  final : Table;
  calls : list Call;
}.

Definition serve (h : Handler Response) (now : Time) (tbl : Table) : Run :=
  let '(r, w) := h {| table := tbl; clock := now; log := [] |} in
  {| outcome := r; final := table w; calls := log w |}.

End Express.
Export Express.

(* ===================================================================== *)
(** ** The routes of the plan *)
(* ===================================================================== *)

Module Routes.

(** The names an object literal answers to without having them as own
    entries: the members of [Object.prototype]. *)
Definition Object_prototype_names : list jsstring :=
  [ js "constructor"; js "hasOwnProperty"; js "isPrototypeOf";
    js "propertyIsEnumerable"; js "toLocaleString"; js "toString";
    js "valueOf"; js "__proto__"; js "__defineGetter__";
    js "__defineSetter__"; js "__lookupGetter__"; js "__lookupSetter__" ].

(** Whether [verifiers[slug]] can find an inherited member. *)
Definition inherited (slug : jsstring) : bool :=
  bool_decide (slug ∈ Object_prototype_names).

Section WithRegistry.
Context `{StatusRule}.

(** The barrel the verify route reads, as the finite map of its own
    entries.  [verifiers !! slug] is [verifiers[slug]] at every slug
    that has an own entry and at every slug that is not [inherited]; at
    an inherited name without own entry the object answers with the
    member of [Object.prototype], which the map does not have.  What is
    stated about the lookup at a slug without own entry is stated for
    slugs with [inherited slug = false]. *)
Variable verifiers : gmap jsstring Verifier.

Definition error (msg : string) : value :=
  JObj [(js "error", JStr (js msg))].

(** [app.post("/api/puzzle/:slug/verify", puzzleRateLimit, ...)], with
    [slug] from [req.params] and [token], [submission] from [req.body].
    The rate limiter runs before the handler and is not part of it. *)
Definition post_puzzle_verify (slug token : jsstring) (submission : value)
  : Handler Response :=
  db_getInvite token ≫= λ invite : option Invite,
  match invite with
  | None => res_status_json 404 (error "Invalid invite")
  | Some invite =>
      if bool_decide (event_slug invite ≠ slug)
      then res_status_json 404 (error "Invalid invite")
      else if truthy (puzzle_solved invite)
      then res_json (JObj [(js "solved", JBool true)])
      else
        match verifiers !! slug with
        | None => res_status_json 404 (error "Unknown event")
        | Some verifier =>
            solved ← call_verifier slug verifier submission;
            (if solved : bool then db_markSolved token else mret ());;
            res_json (JObj [(js "solved", JBool solved)])
        end
  end.

(** [app.post("/api/rsvp/:token", ...)], with [token] from [req.params]
    and [payload] the whole [req.body]. *)
Definition post_rsvp (token : jsstring) (payload : value)
  : Handler Response :=
  db_getInvite token ≫= λ invite : option Invite,
  match invite with
  | None => res_status_json 404 (error "Invalid invite")
  | Some invite =>
      if negb (truthy (puzzle_solved invite))
      then res_status_json 403 (error "Puzzle not yet solved")
      else
        db_upsertRsvp (InviteStore.token invite) payload;;
        res_json (JObj [(js "success", JBool true)])
  end.

(** [app.get("/api/invite/:token", ...)]. *)
Definition get_invite (token : jsstring) : Handler Response :=
  db_getInvite token ≫= λ invite : option Invite,
  match invite with
  | None => res_status_json 404 (error "Invalid invite")
  | Some invite =>
      res_json (JObj [
        (js "guest_name", JStr (guest_name invite));
        (js "event_slug", JStr (event_slug invite));
        (js "puzzle_solved", JBool (truthy (puzzle_solved invite)));
        (js "has_rsvp", JBool (bool_decide (rsvp_status invite ≠ None)))
      ])
  end.

(** The guest-facing operations, for runs of several requests. *)
Inductive Request : Type :=
  | PuzzleAttempt (slug token : jsstring) (submission : value)
  | RsvpSubmit (token : jsstring) (payload : value)
  | InviteState (token : jsstring).

Definition handle (r : Request) : Handler Response :=
  match r with
  | PuzzleAttempt slug token submission =>
      post_puzzle_verify slug token submission
  | RsvpSubmit token payload => post_rsvp token payload
  | InviteState token => get_invite token
  end.

(** The table after a sequence of requests, each served at its own time. *)
Fixpoint replay (rs : list (Time * Request)) (tbl : Table) : Table :=
  match rs with
  | [] => tbl
  | (now, r) :: rest => replay rest (final (serve (handle r) now tbl))
  end.

End WithRegistry.
End Routes.
Export Routes.

(* ===================================================================== *)
(** ** [server/index.js] *)
(* ===================================================================== *)

Module Server.
Section WithHost.
Context `{Host}.

(** The health check; the request is not looked at. *)
Definition get_health {Req : Type} (_req : Req) : Handler Response :=
  now ← new_Date;
  res_json (JObj [ (js "status", JStr (js "ok"));
                   (js "timestamp", JStr (toISOString now)) ]).

(** What [app] is given, in registration order. *)
Inductive Layer : Type :=
  | UseCors                                   (* app.use(cors()) *)
  | UseJson                                   (* app.use(express.json()) *)
  | UseStatic (dir : list string)             (* app.use(express.static(dir)) *)
  | GetJson (path : string)
            (h : ∀ Req : Type, Req → Handler Response)
  | GetSendFile (path : string) (file : list string).

(** [join(__dirname, "..", "dist")], as path segments under the server's
    directory. *)
Definition distPath : list string := [".."; "dist"]%string.

(** The application, given whether [NODE_ENV] is "production". *)
Definition app (production : bool) : list Layer :=
  [ UseCors; UseJson; GetJson "/api/health" (@get_health) ]
  ++ (if production
      then [ UseStatic distPath;
             GetSendFile "*" (distPath ++ ["index.html"%string]) ]
      else []).

(** The paths at which a handler computes its answer. *)
Definition dynamic_paths (layers : list Layer) : list string :=
  omap (λ l, match l with GetJson p _ => Some p | _ => None end) layers.

End WithHost.
End Server.
Export Server.

(* ===================================================================== *)
(** ** The runs of the routes, case by case *)
(* ===================================================================== *)

Module Runs.

Definition invalid_invite : Response :=
  {| status := 404; body := error "Invalid invite" |}.
Definition unknown_event : Response :=
  {| status := 404; body := error "Unknown event" |}.
Definition not_yet_solved : Response :=
  {| status := 403; body := error "Puzzle not yet solved" |}.
Definition solved_is (b : bool) : Response :=
  {| status := 200; body := JObj [(js "solved", JBool b)] |}.
Definition success : Response :=
  {| status := 200; body := JObj [(js "success", JBool true)] |}.

Section WithRegistry.
Context `{StatusRule}.
Variable verifiers : gmap jsstring Verifier.

(** The run of the verify route, by cases on what it meets. *)
Definition verify_run (slug token : jsstring) (submission : value)
    (now : Time) (tbl : Table) : Run :=
  let stop (r : Response) :=
    {| outcome := Normal r; final := tbl; calls := [CallGetInvite token] |} in
  match tbl !! token with
  | None => stop invalid_invite
  | Some row =>
      if bool_decide (event_slug row ≠ slug) then stop invalid_invite
      else if truthy (puzzle_solved row) then stop (solved_is true)
      else match verifiers !! slug with
           | None => stop unknown_event
           | Some verifier =>
               match verifier submission with
               | Normal true =>
                   {| outcome := Normal (solved_is true);
                      final := markSolved now token tbl;
                      calls := [CallGetInvite token;
                                CallVerifier slug submission;
                                CallMarkSolved token] |}
               | Normal false =>
                   {| outcome := Normal (solved_is false);
                      final := tbl;
                      calls := [CallGetInvite token;
                                CallVerifier slug submission] |}
               | Throw e =>
                   {| outcome := Throw e;
                      final := tbl;
                      calls := [CallGetInvite token;
                                CallVerifier slug submission] |}
               end
           end
  end.

(** The run of the RSVP route. *)
Definition rsvp_run (token : jsstring) (payload : value)
    (now : Time) (tbl : Table) : Run :=
  match tbl !! token with
  | None =>
      {| outcome := Normal invalid_invite; final := tbl;
         calls := [CallGetInvite token] |}
  | Some row =>
      if truthy (puzzle_solved row)
      then {| outcome := Normal success;
              final := <[token := with_rsvp now payload row]> tbl;
              calls := [CallGetInvite token; CallUpsertRsvp token payload] |}
      else {| outcome := Normal not_yet_solved; final := tbl;
              calls := [CallGetInvite token] |}
  end.

End WithRegistry.

(** What the invite-state route shows of a row. *)
Definition invite_view (row : InviteRow) : Response :=
  {| status := 200;
     body := JObj [
       (js "guest_name", JStr (guest_name row));
       (js "event_slug", JStr (event_slug row));
       (js "puzzle_solved", JBool (truthy (puzzle_solved row)));
       (js "has_rsvp", JBool (bool_decide (rsvp_status row ≠ None))) ] |}.

(** A row either goes through the solving transition or keeps its gate
    columns. *)
Definition gate_step (now : Time) (row row' : InviteRow) : Prop :=
  (truthy (puzzle_solved row) = false ∧ row' = with_solved now row)
  ∨ (event_slug row' = event_slug row ∧
     puzzle_solved row' = puzzle_solved row ∧
     solved_at row' = solved_at row).

End Runs.
Export Runs.

(* ===================================================================== *)
(** ** The effect of a request on the row it addresses *)
(* ===================================================================== *)

Module Effects.

(** The token a request is about. *)
Definition addressed (r : Request) : jsstring :=
  match r with
  | PuzzleAttempt _ token _ => token
  | RsvpSubmit token _ => token
  | InviteState token => token
  end.

Section WithRegistry.
Context `{StatusRule}.
Variable verifiers : gmap jsstring Verifier.

(** What the request, served at [now], leaves of the row of its token. *)
Definition row_after (r : Request) (now : Time) (row : InviteRow)
  : InviteRow :=
  match r with
  | PuzzleAttempt slug _ submission =>
      if bool_decide (event_slug row ≠ slug) then row
      else if truthy (puzzle_solved row) then row
      else match verifiers !! slug with
           | Some verifier =>
               match verifier submission with
               | Normal true => with_solved now row
               | _ => row
               end
           | None => row
           end
  | RsvpSubmit _ payload =>
      if truthy (puzzle_solved row) then with_rsvp now payload row else row
  | InviteState _ => row
  end.

End WithRegistry.

(** No RSVP column of the row is set. *)
Definition no_rsvp (row : InviteRow) : bool :=
  match rsvp_status row, rsvp_data row, rsvp_at row with
  | None, None, None => true
  | _, _, _ => false
  end.

(** A row is behind the gate when it is solved or carries no RSVP; a
    table is, when all its rows are. *)
Definition behind_gate (row : InviteRow) : bool :=
  truthy (puzzle_solved row) || no_rsvp row.

Definition gated (tbl : Table) : Prop :=
  map_Forall (λ _ row, behind_gate row = true) tbl.

(** White space only, as [trim] sees it. *)
Definition is_padding (ws : jsstring) : bool := forallb is_trimmed_unit ws.

(** A submission [verify] cannot read its answer from: [null],
    [undefined], or an [answer] that is there and is not a string. *)
Definition malformed (submission : value) : Prop :=
  match member submission (js "answer") with
  | Throw _ => True
  | Normal (JUndefined | JNull | JStr _) => False
  | Normal _ => True
  end.

(** The row an [INSERT] into [invites] that gives the token, the event
    and the guest name creates, every other column at its DEFAULT of the
    [CREATE TABLE]: [puzzle_solved] 0, the RSVP columns and [solved_at]
    NULL, [created_at] the time of the insert. *)
Definition inserted_row (slug name : jsstring) (now : Time) : InviteRow :=
  {| event_slug := slug; guest_name := name; puzzle_solved := 0;
     rsvp_status := None; rsvp_data := None;
     created_at := now; solved_at := None; rsvp_at := None |}.

End Effects.
Export Effects.

(* ===================================================================== *)
(** ** A reference host and sample data *)
(* ===================================================================== *)

Module Sample.

(** ASCII lower-casing: what [toLowerCase] does on the code units below
    128; every other code unit is left as it is. *)
Definition ascii_lower (c : N) : N :=
  if ((0x41 <=? c) && (c <=? 0x5A))%N then (c + 0x20)%N else c.

(** *** [Date.prototype.toISOString] for years 0000 to 9999 *)

Definition digit (n : Z) : N := (0x30 + Z.to_N (n mod 10))%N.

Definition digits2 (n : Z) : jsstring := [digit (n / 10); digit n].
Definition digits3 (n : Z) : jsstring :=
  [digit (n / 100); digit (n / 10); digit n].
Definition digits4 (n : Z) : jsstring :=
  [digit (n / 1000); digit (n / 100); digit (n / 10); digit n].

(** Year, month and day of a day number counted from 1970-01-01, in the
    proleptic Gregorian calendar. *)
Definition civil_from_days (days : Z) : Z * Z * Z :=
  let z := days + 719468 in
  let era := z / 146097 in
  let doe := z - era * 146097 in
  let yoe := (doe - doe / 1460 + doe / 36524 - doe / 146096) / 365 in
  let doy := doe - (365 * yoe + yoe / 4 - yoe / 100) in
  let mp := (5 * doy + 2) / 153 in
  let d := doy - (153 * mp + 2) / 5 + 1 in
  let m := if mp <? 10 then mp + 3 else mp - 9 in
  let y := yoe + era * 400 + (if m <=? 2 then 1 else 0) in
  (y, m, d).

Definition iso_string (t : Time) : jsstring :=
  let '(y, m, d) := civil_from_days (t / 86400000) in
  let ms := t mod 86400000 in
  digits4 y ++ js "-" ++ digits2 m ++ js "-" ++ digits2 d ++ js "T"
  ++ digits2 (ms / 3600000) ++ js ":" ++ digits2 (ms / 60000 mod 60)
  ++ js ":" ++ digits2 (ms / 1000 mod 60) ++ js "." ++ digits3 (ms mod 1000)
  ++ js "Z".

Definition host : Host :=
  {| toLowerCase := List.map ascii_lower; toISOString := iso_string |}.

(** A status rule: declined when the payload says [attending: "No"],
    accepted otherwise. *)
Definition rule : StatusRule := λ payload,
  match member payload (js "attending") with
  | Normal (JStr s) => if decide (s = js "No") then declined else accepted
  | _ => accepted
  end.

Definition E1 : jsstring := js "dinner-party-march-2026".
Definition E2 : jsstring := js "scavenger-hunt-july-2026".
Definition T1 : jsstring := js "2f1c7e0a-token-1".
Definition T2 : jsstring := js "9b4d8c55-token-2".

Definition fresh_row (slug name : jsstring) (created : Time) : InviteRow :=
  {| event_slug := slug; guest_name := name; puzzle_solved := 0;
     rsvp_status := None; rsvp_data := None;
     created_at := created; solved_at := None; rsvp_at := None |}.

Definition row1 : InviteRow := fresh_row E1 (js "Claude & Dario") 1000.

(** One unsolved invite for the dinner party. *)
Definition table1 : Table := {[ T1 := row1 ]}.

Definition good : value :=
  JObj [(js "answer", JStr (js "  The Stars Align at MIDNIGHT "))].
Definition bad : value := JObj [(js "answer", JStr (js "no idea"))].

(** A verifier that throws whatever it is given. *)
Definition broken : Verifier := λ _, Throw (Thrown (JStr (js "boom"))).

Definition vs : gmap jsstring Verifier := @verifiers host.

(** The invite of [table1] after its puzzle was solved at time 3000. *)
Definition solved_row1 : InviteRow := with_solved 3000 row1.
Definition solved1 : Table := {[ T1 := solved_row1 ]}.

Definition later_requests : list (Time * Request) :=
  [ (4000, PuzzleAttempt E1 T1 bad);
    (5000, RsvpSubmit T1 (JObj [(js "attending", JStr (js "Yes"))]));
    (6000, PuzzleAttempt E2 T1 good);
    (7000, InviteState T1) ].

(** A registry whose only verifier throws. *)
Definition broken_registry : gmap jsstring Verifier := {[ E1 := broken ]}.

(** A registry with no verifier at all. *)
Definition no_verifiers : gmap jsstring Verifier := ∅.

Definition yes : value := JObj [(js "attending", JStr (js "Yes"))].
Definition no : value := JObj [(js "attending", JStr (js "No"))].

End Sample.

Module MoreSamples.
Import Sample.

Definition row2 : InviteRow := fresh_row E2 (js "Ada") 1500.

(** Two unsolved invites, one for each event. *)
Definition table2 : Table := {[ T1 := row1; T2 := row2 ]}.

Definition padded : value :=
  JObj [(js "name", JStr (js "x"));
        (js "answer", JStr (js "  the stars align at midnight  "))].
Definition exact : value :=
  JObj [(js "answer", JStr (js "the stars align at midnight"))].
Definition numeric : value := JObj [(js "answer", JNum 42)].

End MoreSamples.

(* ===================================================================== *)
(** ** Handlers run as their case analysis says *)
(* ===================================================================== *)

(** Expose the state passing of a handler. *)
Ltac unfold_handler :=
  unfold serve, post_puzzle_verify, post_rsvp, get_invite, get_health,
    db_getInvite, db_markSolved, db_upsertRsvp, call_verifier,
    res_json, res_status_json, record, get_table, put_table, new_Date, lift,
    getInvite, upsertRsvp;
  unfold mbind, mret, Handler_bind, Handler_ret; cbn.

Section RunLemmas.
Context `{StatusRule}.
Variable verifiers : gmap jsstring Verifier.

Lemma serve_post_puzzle_verify slug token submission now tbl :
  serve (post_puzzle_verify verifiers slug token submission) now tbl
  = verify_run verifiers slug token submission now tbl.
Proof.
  unfold verify_run. unfold_handler.
  destruct (tbl !! token) as [row|]; cbn; [|reflexivity].
  case_bool_decide; cbn; [reflexivity|].
  destruct (truthy (puzzle_solved row)); cbn; [reflexivity|].
  destruct (verifiers !! slug) as [verifier|]; cbn; [|reflexivity].
  destruct (verifier submission) as [[|]|e]; reflexivity.
Qed.

Lemma serve_post_rsvp token payload now tbl :
  serve (post_rsvp token payload) now tbl = rsvp_run token payload now tbl.
Proof.
  unfold rsvp_run. unfold_handler.
  destruct (tbl !! token) as [row|] eqn:Hrow; cbn; [|reflexivity].
  destruct (truthy (puzzle_solved row)); cbn; [|reflexivity].
  rewrite Hrow. reflexivity.
Qed.

Lemma serve_get_invite token now tbl :
  serve (get_invite token) now tbl
  = {| outcome := Normal (match tbl !! token with
                          | None => invalid_invite
                          | Some row => invite_view row
                          end);
       final := tbl;
       calls := [CallGetInvite token] |}.
Proof.
  unfold_handler. destruct (tbl !! token) as [row|]; reflexivity.
Qed.

End RunLemmas.

(* ===================================================================== *)
(** ** What one request can do to the table *)
(* ===================================================================== *)

Section Steps.
Context `{StatusRule}.
Variable verifiers : gmap jsstring Verifier.

Lemma markSolved_unsolved (now : Time) (token : jsstring) (tbl : Table)
    (row : InviteRow) :
  tbl !! token = Some row → truthy (puzzle_solved row) = false →
  markSolved now token tbl = <[token := with_solved now row]> tbl.
Proof. intros Hrow Hu. unfold markSolved. rewrite Hrow, Hu. reflexivity. Qed.

Lemma markSolved_solved (now : Time) (token : jsstring) (tbl : Table)
    (row : InviteRow) :
  tbl !! token = Some row → truthy (puzzle_solved row) = true →
  markSolved now token tbl = tbl.
Proof. intros Hrow Hs. unfold markSolved. rewrite Hrow, Hs. reflexivity. Qed.

Lemma markSolved_absent (now : Time) (token : jsstring) (tbl : Table) :
  tbl !! token = None → markSolved now token tbl = tbl.
Proof. intros Hrow. unfold markSolved. rewrite Hrow. reflexivity. Qed.

(** The verify route changes the table in one way only: the solving
    transition of the addressed invite. *)
Lemma verify_run_final (slug token : jsstring) (submission : value)
    (now : Time) (tbl : Table) :
  let run := verify_run verifiers slug token submission now tbl in
  final run = tbl ∨
  ∃ row verifier,
    tbl !! token = Some row ∧ event_slug row = slug ∧
    truthy (puzzle_solved row) = false ∧
    verifiers !! slug = Some verifier ∧ verifier submission = Normal true ∧
    outcome run = Normal (solved_is true) ∧
    final run = <[token := with_solved now row]> tbl.
Proof.
  unfold verify_run.
  destruct (tbl !! token) as [row|] eqn:Hrow; cbn; [|by left].
  case_bool_decide as Hslug; cbn; [by left|].
  destruct (truthy (puzzle_solved row)) eqn:Hs; cbn; [by left|].
  destruct (verifiers !! slug) as [verifier|] eqn:Hv; cbn; [|by left].
  destruct (verifier submission) as [[|]|e] eqn:Hres; cbn; [|by left..].
  right. exists row, verifier.
  rewrite (markSolved_unsolved _ _ _ _ Hrow Hs).
  done.
Qed.

(** The RSVP route changes the table in one way only: the overwrite of
    the RSVP columns of a solved invite. *)
Lemma rsvp_run_final (token : jsstring) (payload : value) (now : Time)
    (tbl : Table) :
  let run := rsvp_run token payload now tbl in
  final run = tbl ∨
  ∃ row,
    tbl !! token = Some row ∧ truthy (puzzle_solved row) = true ∧
    final run = <[token := with_rsvp now payload row]> tbl.
Proof.
  unfold rsvp_run.
  destruct (tbl !! token) as [row|] eqn:Hrow; cbn; [|by left].
  destruct (truthy (puzzle_solved row)) eqn:Hs; cbn; [|by left].
  right. by exists row.
Qed.

Lemma handle_gate_step (r : Request) (now : Time) (tbl : Table)
    (token : jsstring) (row : InviteRow) :
  tbl !! token = Some row →
  ∃ row', final (serve (handle verifiers r) now tbl) !! token = Some row'
          ∧ gate_step now row row'.
Proof.
  intros Hrow. destruct r as [slug tok submission|tok payload|tok]; cbn.
  - rewrite serve_post_puzzle_verify.
    destruct (verify_run_final slug tok submission now tbl)
      as [->|(row0 & v & Hrow0 & _ & Hu & _ & _ & _ & ->)].
    + exists row. split; [done|]. right. done.
    + destruct (decide (tok = token)) as [->|Hne].
      * rewrite lookup_insert_eq. simplify_eq.
        exists (with_solved now row). split; [done|]. left. done.
      * rewrite lookup_insert_ne by done.
        exists row. split; [done|]. right. done.
  - rewrite serve_post_rsvp.
    destruct (rsvp_run_final tok payload now tbl)
      as [->|(row0 & Hrow0 & _ & ->)].
    + exists row. split; [done|]. right. done.
    + destruct (decide (tok = token)) as [->|Hne].
      * rewrite lookup_insert_eq. simplify_eq.
        exists (with_rsvp now payload row). split; [done|]. right. done.
      * rewrite lookup_insert_ne by done.
        exists row. split; [done|]. right. done.
  - rewrite serve_get_invite. cbn.
    exists row. split; [done|]. right. done.
Qed.

(** Once solved, a row stays solved, with its [solved_at] and its event,
    whatever requests follow. *)
Lemma replay_keeps_solved (rs : list (Time * Request)) :
  ∀ (tbl : Table) (token : jsstring) (row : InviteRow),
    tbl !! token = Some row → truthy (puzzle_solved row) = true →
    ∃ row', replay verifiers rs tbl !! token = Some row'
            ∧ event_slug row' = event_slug row
            ∧ truthy (puzzle_solved row') = true
            ∧ solved_at row' = solved_at row.
Proof.
  induction rs as [|[now r] rs IH]; intros tbl token row Hrow Hs; cbn.
  - by exists row.
  - destruct (handle_gate_step r now tbl token row Hrow)
      as (row1 & Hrow1 & [[Hu _]|(Hslug & Hps & Hat)]); [congruence|].
    destruct (IH _ _ _ Hrow1) as (row' & Hrow' & Hslug' & Hs' & Hat').
    { by rewrite Hps. }
    exists row'. repeat split; congruence.
Qed.

End Steps.

(* ===================================================================== *)
(** ** The puzzle gate *)
(* ===================================================================== *)

(** C1. [puzzle_solved] is a one-way latch.  For an invite in the table:
    once it is solved, it is still solved after any sequence of requests,
    with the [solved_at] it had, and a verify request for it (made for the
    event the invite is bound to, with any submission) answers
    [{solved: true}], makes no call but the [getInvite] and leaves the
    table as it is; the first accepted attempt on an unsolved invite sets
    [solved_at] to the time of that attempt; and no request does anything
    else to [puzzle_solved] or [solved_at]. *)
Theorem puzzle_solved_is_a_latch `{StatusRule}
    (V : gmap jsstring Verifier) (token : jsstring) (tbl : Table)
    (row : InviteRow) :
  tbl !! token = Some row →
  (truthy (puzzle_solved row) = true →
   ∀ rs : list (Time * Request),
     let later := replay V rs tbl in
     (∃ row', later !! token = Some row'
              ∧ truthy (puzzle_solved row') = true
              ∧ solved_at row' = solved_at row)
     ∧ ∀ (now : Time) (submission : value),
         serve (post_puzzle_verify V (event_slug row) token submission)
               now later
         = {| outcome := Normal (solved_is true);
              final := later;
              calls := [CallGetInvite token] |})
  ∧ (truthy (puzzle_solved row) = false →
     ∀ (verifier : Verifier) (now : Time) (submission : value),
       V !! event_slug row = Some verifier →
       verifier submission = Normal true →
       let run := serve (post_puzzle_verify V (event_slug row) token
                           submission) now tbl in
       outcome run = Normal (solved_is true)
       ∧ final run !! token = Some (with_solved now row))
  ∧ (∀ (now : Time) (r : Request),
       ∃ row', final (serve (handle V r) now tbl) !! token = Some row'
               ∧ gate_step now row row').
Proof.
  intros Hrow. split; [|split].
  - intros Hs rs later. subst later.
    destruct (replay_keeps_solved V rs tbl token row Hrow Hs)
      as (row' & Hrow' & Hslug & Hs' & Hat).
    split; [by exists row'|].
    intros now submission. rewrite serve_post_puzzle_verify.
    unfold verify_run. rewrite Hrow'. rewrite Hslug.
    rewrite bool_decide_eq_false_2 by (intros Hne; by apply Hne).
    by rewrite Hs'.
  - intros Hu verifier now submission Hv Hacc run. subst run.
    rewrite serve_post_puzzle_verify. unfold verify_run.
    rewrite Hrow.
    rewrite bool_decide_eq_false_2 by (intros Hne; by apply Hne).
    rewrite Hu, Hv, Hacc. cbn.
    rewrite (markSolved_unsolved _ _ _ _ Hrow Hu).
    by rewrite lookup_insert_eq.
  - intros now r. by apply handle_gate_step.
Qed.


(** C4. A verify request with a token that is not in the table and one
    with a token bound to another event are answered alike, with the same
    404 "Invalid invite", and neither changes its table. *)
Theorem absent_and_foreign_token_alike
    (V : gmap jsstring Verifier) (slug token1 token2 : jsstring)
    (submission1 submission2 : value) (now1 now2 : Time)
    (tbl1 tbl2 : Table) (row : InviteRow) :
  tbl1 !! token1 = None →
  tbl2 !! token2 = Some row → event_slug row ≠ slug →
  let absent :=
    serve (post_puzzle_verify V slug token1 submission1) now1 tbl1 in
  let foreign :=
    serve (post_puzzle_verify V slug token2 submission2) now2 tbl2 in
  outcome absent = outcome foreign
  ∧ outcome foreign = Normal {| status := 404; body := error "Invalid invite" |}
  ∧ final foreign = tbl2
  ∧ final absent = tbl1.
Proof.
  intros Habs Hrow Hslug absent foreign. subst absent foreign.
  rewrite !serve_post_puzzle_verify. unfold verify_run.
  rewrite Habs, Hrow. rewrite bool_decide_eq_true_2 by done. done.
Qed.

(** C7 as the code has it.  The handler has no [try]: when the verifier
    of a valid, unsolved invite throws, the exception leaves the handler
    and no [{solved: false}] is sent.  Whatever the token, a verifier
    that throws has the table left as it is and [markSolved] not called:
    the invite is not marked solved. *)
Theorem throwing_verifier_propagates
    (V : gmap jsstring Verifier) (slug token : jsstring)
    (submission : value) (now : Time) (tbl : Table)
    (verifier : Verifier) (e : exn) :
  V !! slug = Some verifier → verifier submission = Throw e →
  let run := serve (post_puzzle_verify V slug token submission) now tbl in
  final run = tbl
  ∧ ¬ In (CallMarkSolved token) (calls run)
  ∧ ∀ row : InviteRow,
      tbl !! token = Some row → event_slug row = slug →
      truthy (puzzle_solved row) = false →
      outcome run = Throw e
      ∧ calls run = [CallGetInvite token; CallVerifier slug submission].
Proof.
  intros Hv Hthrow run. subst run.
  rewrite serve_post_puzzle_verify. unfold verify_run.
  assert (Hnot : ¬ In (CallMarkSolved token) [CallGetInvite token])
    by (intros [?|[]]; done).
  destruct (tbl !! token) as [row|] eqn:Hrow; cbn.
  - case_bool_decide as Hslug; cbn.
    { split; [done|]. split; [done|]. intros ? [= <-] ?. done. }
    destruct (truthy (puzzle_solved row)) eqn:Hs; cbn.
    { split; [done|]. split; [done|]. intros ? [= <-] _ ?. congruence. }
    rewrite Hv, Hthrow. cbn. split; [done|]. split; [|done].
    intros [?|[?|[]]]; done.
  - split; [done|]. split; [done|]. intros ? [=].
Qed.

(** C8 as the code has it.  With no verifier registered for the event of
    a valid, unsolved invite, at a slug that names no inherited member of
    the barrel object, the verify route answers 404 with the error
    "Unknown event" and leaves the table as it is.  The status is that of
    an invalid invite; the body is not. *)
Theorem unknown_event_is_404_with_its_own_message
    (V : gmap jsstring Verifier) (slug token : jsstring)
    (submission : value) (now : Time) (tbl : Table) (row : InviteRow) :
  inherited slug = false →
  V !! slug = None →
  tbl !! token = Some row → event_slug row = slug →
  truthy (puzzle_solved row) = false →
  let run := serve (post_puzzle_verify V slug token submission) now tbl in
  outcome run = Normal {| status := 404; body := error "Unknown event" |}
  ∧ final run = tbl
  ∧ calls run = [CallGetInvite token]
  ∧ status unknown_event = status invalid_invite
  ∧ body unknown_event ≠ body invalid_invite.
Proof.
  intros _ Hv Hrow Hslug Hu run. subst run.
  rewrite serve_post_puzzle_verify. unfold verify_run.
  rewrite Hrow. rewrite bool_decide_eq_false_2 by (intros Hne; by apply Hne).
  rewrite Hu, Hv. repeat split. intros [=].
Qed.

(* ===================================================================== *)
(** ** The RSVP gate and the invite view *)
(* ===================================================================== *)

(** C2. The RSVP route answers 404 "Invalid invite" when the token is not
    in the table and 403 when the invite is there but unsolved, whatever
    the payload, and in both cases leaves the table as it is and does not
    call [upsertRsvp]; otherwise it succeeds and the table afterwards is
    the one [upsertRsvp] returns. *)
Theorem rsvp_gate_outcomes `{StatusRule} (token : jsstring)
    (payload : value) (now : Time) (tbl : Table) :
  let run := serve (post_rsvp token payload) now tbl in
  match tbl !! token with
  | None =>
      outcome run = Normal {| status := 404; body := error "Invalid invite" |}
      ∧ final run = tbl
      ∧ calls run = [CallGetInvite token]
  | Some row =>
      if truthy (puzzle_solved row)
      then outcome run = Normal success
           ∧ upsertRsvp now token payload tbl = Normal (final run)
           ∧ calls run = [CallGetInvite token; CallUpsertRsvp token payload]
      else outcome run
             = Normal {| status := 403; body := error "Puzzle not yet solved" |}
           ∧ final run = tbl
           ∧ calls run = [CallGetInvite token]
  end.
Proof.
  intros run. subst run. rewrite serve_post_rsvp. unfold rsvp_run, upsertRsvp.
  destruct (tbl !! token) as [row|]; [|done].
  destruct (truthy (puzzle_solved row)); done.
Qed.

(** C5. Two RSVP submissions on a solved invite both succeed; after the
    second the row holds the second payload and the time of the second
    call, and the whole table is what the second submission alone would
    have left: nothing of the first payload remains.  After the first
    call [rsvp_at] is the time of the first call. *)
Theorem rsvp_resubmission_overwrites `{StatusRule} (token : jsstring)
    (payload1 payload2 : value) (now1 now2 : Time) (tbl : Table)
    (row : InviteRow) :
  tbl !! token = Some row → truthy (puzzle_solved row) = true →
  let first := serve (post_rsvp token payload1) now1 tbl in
  let second := serve (post_rsvp token payload2) now2 (final first) in
  outcome first = Normal success
  ∧ outcome second = Normal success
  ∧ final first !! token = Some (with_rsvp now1 payload1 row)
  ∧ final second !! token = Some (with_rsvp now2 payload2 row)
  ∧ rsvp_data (with_rsvp now2 payload2 row) = Some payload2
  ∧ rsvp_at (with_rsvp now1 payload1 row) = Some now1
  ∧ rsvp_at (with_rsvp now2 payload2 row) = Some now2
  ∧ final second = final (serve (post_rsvp token payload2) now2 tbl).
Proof.
  intros Hrow Hs first second. subst first second.
  rewrite !serve_post_rsvp. unfold rsvp_run. rewrite Hrow, Hs. cbn.
  rewrite lookup_insert_eq. cbn. rewrite Hs. cbn.
  rewrite lookup_insert_eq, insert_insert_eq. done.
Qed.

(** C6. For an invite in the table the invite-state route answers with
    exactly the four members [guest_name], [event_slug], [puzzle_solved]
    and [has_rsvp], the last being whether [rsvp_status] is set, and
    changes nothing.  Two invites that agree on the name, the event, the
    solved flag and on whether a status is set get the same answer,
    whatever their [rsvp_data], their status values and their times. *)
Theorem invite_state_hides_rsvp `{StatusRule} (token : jsstring)
    (now : Time) (tbl : Table) (row : InviteRow) :
  tbl !! token = Some row →
  let run := serve (get_invite token) now tbl in
  outcome run
  = Normal {| status := 200;
              body := JObj [
                (js "guest_name", JStr (guest_name row));
                (js "event_slug", JStr (event_slug row));
                (js "puzzle_solved", JBool (truthy (puzzle_solved row)));
                (js "has_rsvp",
                 JBool (match rsvp_status row with
                        | None => false | Some _ => true end)) ] |}
  ∧ final run = tbl
  ∧ ∀ (token' : jsstring) (now' : Time) (tbl' : Table) (row' : InviteRow),
      tbl' !! token' = Some row' →
      guest_name row' = guest_name row →
      event_slug row' = event_slug row →
      truthy (puzzle_solved row') = truthy (puzzle_solved row) →
      (rsvp_status row' = None ↔ rsvp_status row = None) →
      outcome (serve (get_invite token') now' tbl') = outcome run.
Proof.
  intros Hrow run. subst run. rewrite serve_get_invite. cbn. rewrite Hrow.
  unfold invite_view. split; [|split; [done|]].
  - destruct (rsvp_status row); done.
  - intros token' now' tbl' row' Hrow' Hname Hslug Hsolved Hstatus.
    rewrite serve_get_invite. cbn. rewrite Hrow'. unfold invite_view.
    rewrite Hname, Hslug, Hsolved.
    rewrite (bool_decide_ext (rsvp_status row' ≠ None)
               (rsvp_status row ≠ None)) by tauto.
    done.
Qed.

(* ===================================================================== *)
(** ** The implemented server and the example verifier *)
(* ===================================================================== *)

(** C9. The health check answers 200 with [status] "ok" and [timestamp]
    the ISO string of the current time, whatever the request; it makes no
    call and leaves the table as it is.  With or without the production
    layers, "/api/health" is the only path with a computing handler. *)
Theorem health_check_only_dynamic_route `{Host} (Req : Type) (req : Req)
    (now : Time) (tbl : Table) (production : bool) :
  serve (get_health req) now tbl
  = {| outcome := Normal {| status := 200;
                            body := JObj [
                              (js "status", JStr (js "ok"));
                              (js "timestamp", JStr (toISOString now)) ] |};
       final := tbl;
       calls := [] |}
  ∧ dynamic_paths (app production) = ["/api/health"%string].
Proof. split; [reflexivity|]. destruct production; reflexivity. Qed.

(** C10. The example verifier returns [true] exactly when the submission
    has an [answer] that is a string which, trimmed and lower-cased, is
    "the stars align at midnight"; on a submission that is neither [null]
    nor [undefined] and whose [answer] is absent, [undefined] or [null] it
    returns [false] and does not throw. *)
Theorem verify_true_iff_and_total_without_answer `{Host}
    (submission : value) :
  (verify submission = Normal true
   ↔ ∃ s : jsstring,
       member submission (js "answer") = Normal (JStr s)
       ∧ toLowerCase (trim s) = js "the stars align at midnight")
  ∧ (∀ answer : value,
       member submission (js "answer") = Normal answer →
       answer = JUndefined ∨ answer = JNull →
       verify submission = Normal false).
Proof.
  unfold verify. split.
  - destruct (member submission (js "answer")) as [answer|e]; cbn.
    + split.
      * destruct answer; cbn; try discriminate.
        intros [= Heq]. apply bool_decide_eq_true_1 in Heq. eauto.
      * intros (s & [= ->] & Heq). cbn.
        by rewrite bool_decide_eq_true_2.
    + split; [discriminate|]. intros (s & [=] & _).
  - intros answer -> [-> | ->]; reflexivity.
Qed.

(* ===================================================================== *)
(** ** Concrete runs *)
(* ===================================================================== *)

Import Sample.

Example verify_good : @verify host good = Normal true.
Proof. reflexivity. Qed.

Example verify_bad : @verify host bad = Normal false.
Proof. reflexivity. Qed.

Example verify_number : @verify host (JObj [(js "answer", JNum 42)])
                        = Throw TypeError.
Proof. reflexivity. Qed.

Example verify_null : @verify host JNull = Throw TypeError.
Proof. reflexivity. Qed.

Example iso_epoch : iso_string 0 = js "1970-01-01T00:00:00.000Z".
Proof. reflexivity. Qed.

Example iso_2026 : iso_string 1773532800123 = js "2026-03-15T00:00:00.123Z".
Proof. reflexivity. Qed.

(** The idempotence scenario: a bad answer, the good one, a bad one again. *)
Example idempotence_scenario :
  let vs := @verifiers host in
  let run1 := serve (post_puzzle_verify vs E1 T1 bad) 2000 table1 in
  let run2 := serve (post_puzzle_verify vs E1 T1 good) 3000 (final run1) in
  let run3 := serve (post_puzzle_verify vs E1 T1 bad) 4000 (final run2) in
  outcome run1 = Normal (solved_is false) ∧ final run1 = table1 ∧
  outcome run2 = Normal (solved_is true) ∧
  solved_at <$> final run2 !! T1 = Some (Some 3000) ∧
  outcome run3 = Normal (solved_is true) ∧ final run3 = final run2 ∧
  calls run3 = [CallGetInvite T1].
Proof. vm_compute. repeat split. Qed.

Lemma puzzle_solved_is_a_latch_witness :
  solved1 !! T1 = Some solved_row1
  ∧ truthy (puzzle_solved solved_row1) = true
  ∧ (∃ row', replay (H := rule) vs later_requests solved1 !! T1 = Some row'
             ∧ truthy (puzzle_solved row') = true
             ∧ solved_at row' = Some 3000)
  ∧ serve (post_puzzle_verify vs E1 T1 bad) 8000
          (replay (H := rule) vs later_requests solved1)
    = {| outcome := Normal (solved_is true);
         final := replay (H := rule) vs later_requests solved1;
         calls := [CallGetInvite T1] |}
  ∧ final (serve (post_puzzle_verify vs E1 T1 good) 3000 table1) !! T1
    = Some solved_row1.
Proof.
  assert (Hrow : solved1 !! T1 = Some solved_row1) by reflexivity.
  assert (Hs : truthy (puzzle_solved solved_row1) = true) by reflexivity.
  destruct (@puzzle_solved_is_a_latch rule vs T1 solved1 solved_row1 Hrow)
    as (Hlatch & _ & _).
  destruct (Hlatch Hs later_requests) as (Hkept & Hverify).
  destruct (@puzzle_solved_is_a_latch rule vs T1 table1 row1 eq_refl)
    as (_ & Hfirst & _).
  destruct (Hfirst eq_refl (@verify host) 3000 good eq_refl eq_refl)
    as (_ & Hset).
  split; [exact Hrow|]. split; [exact Hs|]. split; [exact Hkept|].
  split; [exact (Hverify 8000 bad)|exact Hset].
Defined.


Lemma absent_and_foreign_token_alike_witness :
  table1 !! T2 = None
  ∧ table1 !! T1 = Some row1
  ∧ event_slug row1 ≠ E2
  ∧ outcome (serve (post_puzzle_verify vs E2 T2 good) 2000 table1)
    = outcome (serve (post_puzzle_verify vs E2 T1 good) 2000 table1)
  ∧ final (serve (post_puzzle_verify vs E2 T1 good) 2000 table1) = table1.
Proof.
  assert (Hne : event_slug row1 ≠ E2) by (vm_compute; discriminate).
  destruct (@absent_and_foreign_token_alike vs E2 T2 T1 good good
              2000 2000 table1 table1 row1 eq_refl eq_refl Hne)
    as (Halike & _ & Hsame & _).
  repeat split; assumption || reflexivity.
Defined.

(** C7, refuted as stated: with a verifier that throws, the verify route
    does not answer [{solved: false}]; the exception leaves the handler. *)
Lemma throwing_verifier_not_caught :
  let V := broken_registry in
  let run := serve (post_puzzle_verify V E1 T1 bad) 2000 table1 in
  V !! E1 = Some broken
  ∧ broken bad = Throw (Thrown (JStr (js "boom")))
  ∧ outcome run = Throw (Thrown (JStr (js "boom")))
  ∧ outcome run ≠ Normal (solved_is false).
Proof. vm_compute. repeat split. discriminate. Qed.

Lemma throwing_verifier_propagates_witness :
  broken_registry !! E1 = Some broken
  ∧ broken bad = Throw (Thrown (JStr (js "boom")))
  ∧ table1 !! T1 = Some row1
  ∧ truthy (puzzle_solved row1) = false
  ∧ outcome (serve (post_puzzle_verify broken_registry E1 T1 bad)
               2000 table1)
    = Throw (Thrown (JStr (js "boom")))
  ∧ final (serve (post_puzzle_verify broken_registry E1 T1 bad)
             2000 table1) = table1.
Proof.
  destruct (@throwing_verifier_propagates broken_registry E1 T1 bad
              2000 table1 broken (Thrown (JStr (js "boom")))
              eq_refl eq_refl)
    as (Hsame & _ & Hvalid).
  destruct (Hvalid row1 eq_refl eq_refl eq_refl) as (Hout & _).
  repeat split; assumption || reflexivity.
Defined.

(** C8, refuted as stated: the answer for an event without a verifier and
    the answer for an invalid invite differ. *)
Lemma unknown_event_distinguishable :
  let V := no_verifiers in
  let unknown :=
    serve (post_puzzle_verify V E1 T1 good) 2000 table1 in
  let invalid :=
    serve (post_puzzle_verify V E1 T2 good) 2000 table1 in
  V !! E1 = None
  ∧ table1 !! T1 = Some row1 ∧ table1 !! T2 = None
  ∧ outcome unknown
    = Normal {| status := 404; body := error "Unknown event" |}
  ∧ outcome invalid
    = Normal {| status := 404; body := error "Invalid invite" |}
  ∧ outcome unknown ≠ outcome invalid.
Proof. vm_compute. repeat split. discriminate. Qed.

Lemma unknown_event_is_404_with_its_own_message_witness :
  inherited E1 = false
  ∧ no_verifiers !! E1 = None
  ∧ table1 !! T1 = Some row1
  ∧ truthy (puzzle_solved row1) = false
  ∧ outcome (serve (post_puzzle_verify no_verifiers E1 T1 good) 2000 table1)
    = Normal {| status := 404; body := error "Unknown event" |}
  ∧ final (serve (post_puzzle_verify no_verifiers E1 T1 good) 2000 table1)
    = table1.
Proof.
  destruct (@unknown_event_is_404_with_its_own_message no_verifiers E1 T1 good
              2000 table1 row1 eq_refl eq_refl eq_refl eq_refl eq_refl)
    as (Hout & Hsame & _).
  repeat split; assumption || reflexivity.
Defined.

Lemma rsvp_resubmission_overwrites_witness :
  solved1 !! T1 = Some solved_row1
  ∧ truthy (puzzle_solved solved_row1) = true
  ∧ final (serve (post_rsvp (H := rule) T1 no) 6000
             (final (serve (post_rsvp (H := rule) T1 yes) 5000 solved1)))
    !! T1
    = Some (with_rsvp (H := rule) 6000 no solved_row1)
  ∧ rsvp_data (with_rsvp (H := rule) 6000 no solved_row1) = Some no
  ∧ rsvp_at (with_rsvp (H := rule) 6000 no solved_row1) = Some 6000.
Proof.
  destruct (@rsvp_resubmission_overwrites rule T1 yes no 5000 6000 solved1
              solved_row1 eq_refl eq_refl)
    as (_ & _ & _ & Hsecond & Hdata & _ & Hat & _).
  repeat split; assumption || reflexivity.
Defined.

Lemma invite_state_hides_rsvp_witness :
  solved1 !! T1 = Some solved_row1
  ∧ outcome (serve (get_invite T1) 9000
               (final (serve (post_rsvp (H := rule) T1 yes) 5000 solved1)))
    = outcome (serve (get_invite T1) 9000
                 (final (serve (post_rsvp (H := rule) T1 no) 6000 solved1))).
Proof.
  pose (with_yes := final (serve (post_rsvp (H := rule) T1 yes) 5000 solved1)).
  pose (with_no := final (serve (post_rsvp (H := rule) T1 no) 6000 solved1)).
  destruct (@invite_state_hides_rsvp rule T1 9000 with_no
              (with_rsvp (H := rule) 6000 no solved_row1) eq_refl)
    as (_ & _ & Hsame).
  split; [reflexivity|].
  apply (Hsame T1 9000 with_yes (with_rsvp (H := rule) 5000 yes solved_row1));
    try reflexivity.
  split; discriminate.
Defined.

Lemma verify_true_iff_and_total_without_answer_witness :
  member good (js "answer") = Normal (JStr (js "  The Stars Align at MIDNIGHT "))
  ∧ @verify host good = Normal true
  ∧ member (JObj []) (js "answer") = Normal JUndefined
  ∧ @verify host (JObj []) = Normal false
  ∧ @verify host (JObj [(js "answer", JNull)]) = Normal false.
Proof.
  destruct (@verify_true_iff_and_total_without_answer host good)
    as ((_ & Hyes) & _).
  destruct (@verify_true_iff_and_total_without_answer host (JObj []))
    as (_ & Hnone).
  destruct (@verify_true_iff_and_total_without_answer host
              (JObj [(js "answer", JNull)])) as (_ & Hnull).
  split; [reflexivity|]. split.
  { apply Hyes. exists (js "  The Stars Align at MIDNIGHT ").
    split; reflexivity. }
  split; [reflexivity|]. split.
  { apply (Hnone JUndefined); [reflexivity|by left]. }
  apply (Hnull JNull); [reflexivity|by right].
Defined.

(* ===================================================================== *)
(** ** More on the example verifier *)
(* ===================================================================== *)

Section VerifierFacts.
Context `{Host}.

(** [verify], by what the [answer] of the submission is. *)
Lemma verify_by_cases (submission : value) :
  verify submission
  = match member submission (js "answer") with
    | Throw e => Throw e
    | Normal (JUndefined | JNull) => Normal false
    | Normal (JStr s) =>
        Normal (bool_decide
                  (toLowerCase (trim s) = js "the stars align at midnight"))
    | Normal _ => Throw TypeError
    end.
Proof.
  unfold verify.
  destruct (member submission (js "answer")) as [[]|]; reflexivity.
Qed.

Lemma member_throws_TypeError (v : value) (key : jsstring) (e : exn) :
  member v key = Throw e → e = TypeError.
Proof. destruct v; cbn; congruence. Qed.

Lemma padding_rev (ws : jsstring) : is_padding (rev ws) = is_padding ws.
Proof.
  unfold is_padding. apply eq_true_iff_eq.
  rewrite !forallb_forall. split; intros Hall c Hc; apply Hall.
  - by apply in_rev in Hc.
  - by apply in_rev.
Qed.

Lemma trimStart_cons (c : N) (s : jsstring) :
  trimStart (c :: s) = if is_trimmed_unit c then trimStart s else c :: s.
Proof. reflexivity. Qed.

Lemma is_padding_cons (c : N) (ws : jsstring) :
  is_padding (c :: ws) = is_trimmed_unit c && is_padding ws.
Proof. reflexivity. Qed.

Lemma trimStart_padding (ws s : jsstring) :
  is_padding ws = true → trimStart (ws ++ s) = trimStart s.
Proof.
  induction ws as [|c ws IH]; [done|].
  rewrite is_padding_cons. intros [Hc Hws]%andb_prop.
  rewrite <- app_comm_cons, trimStart_cons, Hc. by apply IH.
Qed.

Lemma trimStart_nil_padding (s : jsstring) :
  trimStart s = [] → is_padding s = true.
Proof.
  induction s as [|c s IH]; [done|].
  rewrite trimStart_cons, is_padding_cons.
  destruct (is_trimmed_unit c); [exact IH|discriminate].
Qed.

Lemma trimStart_app (s t : jsstring) :
  trimStart s ≠ [] → trimStart (s ++ t) = trimStart s ++ t.
Proof.
  induction s as [|c s IH]; [done|].
  rewrite <- app_comm_cons, !trimStart_cons.
  destruct (is_trimmed_unit c); [exact IH|done].
Qed.

Lemma trimEnd_padding (s ws : jsstring) :
  is_padding ws = true → trimEnd (s ++ ws) = trimEnd s.
Proof.
  intros Hws. unfold trimEnd. rewrite rev_app_distr.
  rewrite trimStart_padding; [done|]. by rewrite padding_rev.
Qed.

Lemma trim_padding (ws1 s ws2 : jsstring) :
  is_padding ws1 = true → is_padding ws2 = true →
  trim (ws1 ++ s ++ ws2) = trim s.
Proof.
  intros H1 H2. unfold trim. rewrite trimStart_padding by done.
  destruct (trimStart s) as [|c rest] eqn:Hs.
  - apply trimStart_nil_padding in Hs.
    rewrite <- (app_nil_r (s ++ ws2)), trimStart_padding; [done|].
    unfold is_padding in *. rewrite forallb_app, Hs, H2. done.
  - rewrite trimStart_app by congruence. rewrite Hs.
    by apply trimEnd_padding.
Qed.

(** A malformed submission makes [verify] throw a [TypeError]. *)
Lemma malformed_makes_verify_throw (submission : value) :
  malformed submission → verify submission = Throw TypeError.
Proof.
  rewrite verify_by_cases. unfold malformed.
  destruct (member submission (js "answer")) as [answer|e] eqn:Hm.
  - by destruct answer.
  - by apply member_throws_TypeError in Hm as ->.
Qed.

End VerifierFacts.

(** X1. The example verifier throws exactly on a malformed submission:
    [null], [undefined], or one whose [answer] is there and is a number,
    a boolean, an array or an object; what it throws is a [TypeError]. *)
Theorem verify_throws_exactly_on_malformed `{Host} (submission : value)
    (e : exn) :
  verify submission = Throw e ↔ e = TypeError ∧ malformed submission.
Proof.
  rewrite verify_by_cases. unfold malformed.
  destruct (member submission (js "answer")) as [answer|e'] eqn:Hm.
  - destruct answer; split; try (intros [= <-]; done);
      try (intros [-> _]; done); try discriminate; intros [_ []].
  - apply member_throws_TypeError in Hm as ->.
    split; [intros [= <-]; done|intros [-> _]; done].
Qed.

(** X2. White space around the answer does not change the verdict: a
    submission whose answer is a string padded with white space or line
    terminators gets what the submission with the bare string gets,
    whatever else the two objects hold. *)
Theorem verify_ignores_padding `{Host}
    (members members' : list (jsstring * value)) (ws1 s ws2 : jsstring) :
  is_padding ws1 = true → is_padding ws2 = true →
  own_member members (js "answer") = JStr (ws1 ++ s ++ ws2) →
  own_member members' (js "answer") = JStr s →
  verify (JObj members) = verify (JObj members').
Proof.
  intros H1 H2 Hpadded Hbare. rewrite !verify_by_cases. cbn.
  rewrite Hpadded, Hbare. by rewrite trim_padding.
Qed.

(* ===================================================================== *)
(** ** Requests are local to the invite they address *)
(* ===================================================================== *)

Section Locality.
Context `{StatusRule}.
Variable verifiers : gmap jsstring Verifier.

(** The table after a request: the row of the addressed token replaced
    by what the request leaves of it. *)
Lemma handle_final (r : Request) (now : Time) (tbl : Table) :
  final (serve (handle verifiers r) now tbl)
  = match tbl !! addressed r with
    | Some row => <[addressed r := row_after verifiers r now row]> tbl
    | None => tbl
    end.
Proof.
  destruct r as [slug token submission|token payload|token]; cbn.
  - rewrite serve_post_puzzle_verify. unfold verify_run.
    destruct (tbl !! token) as [row|] eqn:Hrow; cbn; [|done].
    case_bool_decide; cbn; [by rewrite insert_id|].
    destruct (truthy (puzzle_solved row)) eqn:Hs; cbn; [by rewrite insert_id|].
    destruct (verifiers !! slug) as [verifier|]; cbn; [|by rewrite insert_id].
    destruct (verifier submission) as [[|]|e]; cbn;
      [|by rewrite insert_id..].
    by apply markSolved_unsolved.
  - rewrite serve_post_rsvp. unfold rsvp_run.
    destruct (tbl !! token) as [row|] eqn:Hrow; cbn; [|done].
    destruct (truthy (puzzle_solved row)); cbn; [done|by rewrite insert_id].
  - rewrite serve_get_invite. cbn.
    destruct (tbl !! token) as [row|] eqn:Hrow; [by rewrite insert_id|done].
Qed.

(** The answer to a request is decided by the row of the addressed token
    alone; neither the other rows nor the clock matter. *)
Lemma handle_outcome_local (r : Request) (now now' : Time)
    (tbl tbl' : Table) :
  tbl !! addressed r = tbl' !! addressed r →
  outcome (serve (handle verifiers r) now tbl)
  = outcome (serve (handle verifiers r) now' tbl').
Proof.
  destruct r as [slug token submission|token payload|token]; cbn; intros Heq.
  - rewrite !serve_post_puzzle_verify. unfold verify_run. rewrite <- Heq.
    destruct (tbl !! token) as [row|]; cbn; [|done].
    case_bool_decide; cbn; [done|].
    destruct (truthy (puzzle_solved row)); cbn; [done|].
    destruct (verifiers !! slug) as [verifier|]; cbn; [|done].
    by destruct (verifier submission) as [[|]|e].
  - rewrite !serve_post_rsvp. unfold rsvp_run. rewrite <- Heq.
    destruct (tbl !! token) as [row|]; cbn; [|done].
    by destruct (truthy (puzzle_solved row)).
  - rewrite !serve_get_invite. cbn. by rewrite Heq.
Qed.

(** What a request leaves of a row keeps the event, the guest name and
    the creation time. *)
Lemma row_after_identity (r : Request) (now : Time) (row : InviteRow) :
  let row' := row_after verifiers r now row in
  event_slug row' = event_slug row
  ∧ guest_name row' = guest_name row
  ∧ created_at row' = created_at row.
Proof.
  destruct r as [slug token submission|token payload|token]; cbn; [| |done].
  - case_bool_decide; [done|].
    destruct (truthy (puzzle_solved row)); [done|].
    destruct (verifiers !! slug) as [verifier|]; [|done].
    by destruct (verifier submission) as [[|]|e].
  - by destruct (truthy (puzzle_solved row)).
Qed.

(** ... and keeps it behind the gate. *)
Lemma row_after_behind_gate (r : Request) (now : Time) (row : InviteRow) :
  behind_gate row = true →
  behind_gate (row_after verifiers r now row) = true.
Proof.
  intros Hgate.
  destruct r as [slug token submission|token payload|token]; cbn; [| |done].
  - case_bool_decide; [done|].
    destruct (truthy (puzzle_solved row)); [done|].
    destruct (verifiers !! slug) as [verifier|]; [|done].
    by destruct (verifier submission) as [[|]|e].
  - destruct (truthy (puzzle_solved row)) eqn:Hs; [|done].
    unfold behind_gate. cbn. by rewrite Hs.
Qed.

End Locality.

Section LocalityConsequences.
Context `{StatusRule}.
Variable verifiers : gmap jsstring Verifier.

(** The row of any token after a request. *)
Lemma handle_lookup (r : Request) (now : Time) (tbl : Table)
    (k : jsstring) :
  final (serve (handle verifiers r) now tbl) !! k
  = (λ row, if decide (addressed r = k)
            then row_after verifiers r now row else row) <$> tbl !! k.
Proof.
  rewrite handle_final.
  destruct (decide (addressed r = k)) as [<-|Hne].
  - destruct (tbl !! addressed r) as [row|] eqn:Hrow.
    + by rewrite lookup_insert_eq.
    + by rewrite Hrow.
  - destruct (tbl !! addressed r) as [row|] eqn:Hrow.
    + rewrite lookup_insert_ne by done. by destruct (tbl !! k).
    + by destruct (tbl !! k).
Qed.

End LocalityConsequences.

(* ===================================================================== *)
(** ** Further properties of the routes *)
(* ===================================================================== *)

(** X3. With the barrel as written, a malformed submission to the verify
    route for an unsolved dinner-party invite is not answered: the
    [TypeError] of the verifier leaves the handler, the table is left as
    it is and [markSolved] is not called. *)
Theorem malformed_submission_throws_out_of_verify_route `{Host}
    (token : jsstring) (submission : value) (now : Time) (tbl : Table)
    (row : InviteRow) :
  tbl !! token = Some row →
  event_slug row = js "dinner-party-march-2026" →
  truthy (puzzle_solved row) = false →
  malformed submission →
  let run := serve (post_puzzle_verify verifiers
                      (js "dinner-party-march-2026") token submission)
                   now tbl in
  outcome run = Throw TypeError
  ∧ final run = tbl
  ∧ calls run = [CallGetInvite token;
                 CallVerifier (js "dinner-party-march-2026") submission].
Proof.
  intros Hrow Hslug Hu Hbad run. subst run.
  assert (Hthrow : verify submission = Throw TypeError)
    by (apply malformed_makes_verify_throw; done).
  rewrite serve_post_puzzle_verify. unfold verify_run.
  rewrite Hrow, Hslug.
  rewrite bool_decide_eq_false_2 by (intros Hne; by apply Hne).
  rewrite Hu. unfold verifiers. rewrite lookup_singleton_eq, Hthrow. done.
Qed.

(** X4. With the barrel as written, and at a slug that names no member
    the barrel object inherits, the verify route changes the table
    exactly when the request is for the dinner party, the invite is
    there, bound to that event and unsolved, and the answer is a string
    that, trimmed and lower-cased, is the phrase; the row is then the old
    one marked solved at the time of the request. *)
Theorem barrel_solves_exactly_on_the_phrase `{Host}
    (slug token : jsstring) (submission : value) (now : Time)
    (tbl : Table) :
  inherited slug = false →
  let run := serve (post_puzzle_verify verifiers slug token submission)
                   now tbl in
  let opens (row : InviteRow) :=
    slug = js "dinner-party-march-2026"
    ∧ tbl !! token = Some row ∧ event_slug row = slug
    ∧ truthy (puzzle_solved row) = false
    ∧ ∃ s : jsstring,
        member submission (js "answer") = Normal (JStr s)
        ∧ toLowerCase (trim s) = js "the stars align at midnight" in
  (final run ≠ tbl ↔ ∃ row, opens row)
  ∧ (∀ row, opens row →
       outcome run = Normal (solved_is true)
       ∧ final run = <[token := with_solved now row]> tbl).
Proof.
  intros _ run opens. subst run.
  destruct (verify_run_final verifiers slug token submission now tbl)
    as [Hsame|(row & verifier & Hrow & Hslug & Hu & Hv & Hacc & Hout & Hfin)].
  - rewrite serve_post_puzzle_verify. split.
    + split; [intros Hne; by destruct Hne|].
      intros (row & -> & Hrow & Hslug & Hu & s & Hm & Hphrase).
      exfalso. revert Hsame. unfold verify_run.
      rewrite Hrow, Hslug.
      rewrite bool_decide_eq_false_2 by (intros Hne; by apply Hne).
      rewrite Hu. unfold verifiers.
      rewrite lookup_singleton_eq, verify_by_cases, Hm.
      rewrite bool_decide_eq_true_2 by done. cbn.
      rewrite (markSolved_unsolved _ _ _ _ Hrow Hu).
      intros Heq. apply (f_equal (λ m : Table, m !! token)) in Heq.
      rewrite lookup_insert_eq, Hrow in Heq.
      injection Heq as Heq. rewrite <- Heq in Hu. discriminate.
    + intros row (-> & Hrow & Hslug & Hu & s & Hm & Hphrase).
      unfold verify_run. rewrite Hrow, Hslug.
      rewrite bool_decide_eq_false_2 by (intros Hne; by apply Hne).
      rewrite Hu. unfold verifiers.
      rewrite lookup_singleton_eq, verify_by_cases, Hm.
      rewrite bool_decide_eq_true_2 by done. cbn.
      by rewrite (markSolved_unsolved _ _ _ _ Hrow Hu).
  - rewrite serve_post_puzzle_verify.
    unfold verifiers in Hv. apply lookup_singleton_Some in Hv as [<- <-].
    rewrite verify_by_cases in Hacc.
    assert (Hopens : opens row).
    { unfold opens. split; [done|]. split; [done|]. split; [done|].
      split; [done|].
      destruct (member submission (js "answer")) as [[]|]; try discriminate.
      injection Hacc as Hacc. apply bool_decide_eq_true_1 in Hacc. eauto. }
    split.
    + split; [by exists row|]. intros _. rewrite Hfin. intros Heq.
      apply (f_equal (λ m : Table, m !! token)) in Heq.
      rewrite lookup_insert_eq, Hrow in Heq.
      injection Heq as Heq. rewrite <- Heq in Hu. discriminate.
    + intros row' (_ & Hrow' & _). simplify_eq. done.
Qed.

(** X5. A token that is not in the table gets the same answer from the
    three routes, 404 "Invalid invite"; each of them only looks the token
    up and leaves the table as it is. *)
Theorem unknown_token_same_answer_on_every_route `{StatusRule}
    (V : gmap jsstring Verifier) (slug token : jsstring)
    (submission payload : value) (now : Time) (tbl : Table) :
  tbl !! token = None →
  let stopped :=
    {| outcome := Normal {| status := 404; body := error "Invalid invite" |};
       final := tbl;
       calls := [CallGetInvite token] |} in
  serve (post_puzzle_verify V slug token submission) now tbl = stopped
  ∧ serve (post_rsvp token payload) now tbl = stopped
  ∧ serve (get_invite token) now tbl = stopped.
Proof.
  intros Habs stopped. subst stopped.
  rewrite serve_post_puzzle_verify, serve_post_rsvp, serve_get_invite.
  unfold verify_run, rsvp_run. rewrite Habs. done.
Qed.

(** X6. The answer of the RSVP route tells whether the invite exists and
    is solved, and nothing else: it is one of three fixed responses, and
    two requests meeting the same gate state are answered alike, whatever
    the payloads, the times and the rest of the rows. *)
Theorem rsvp_answer_depends_only_on_gate `{StatusRule}
    (token token' : jsstring) (payload payload' : value)
    (now now' : Time) (tbl tbl' : Table) :
  let answer := outcome (serve (post_rsvp token payload) now tbl) in
  (answer = Normal invalid_invite ∨ answer = Normal not_yet_solved
   ∨ answer = Normal success)
  ∧ ((λ row, truthy (puzzle_solved row)) <$> tbl !! token
     = (λ row, truthy (puzzle_solved row)) <$> tbl' !! token' →
     outcome (serve (post_rsvp token' payload') now' tbl') = answer).
Proof.
  intros answer. subst answer. rewrite !serve_post_rsvp. unfold rsvp_run.
  destruct (tbl !! token) as [row|], (tbl' !! token') as [row'|]; cbn.
  - destruct (truthy (puzzle_solved row)); cbn;
      (split; [tauto|]); intros [= <-]; done.
  - destruct (truthy (puzzle_solved row)); cbn;
      (split; [tauto|]); intros [=].
  - split; [tauto|]. intros [=].
  - split; [tauto|]. done.
Qed.

(** X7. A request never creates or deletes an invite and changes no row
    but the one of the token it addresses. *)
Theorem request_touches_only_its_invite `{StatusRule}
    (V : gmap jsstring Verifier) (r : Request) (now : Time) (tbl : Table) :
  let tbl' := final (serve (handle V r) now tbl) in
  dom tbl' = dom tbl
  ∧ ∀ k : jsstring, k ≠ addressed r → tbl' !! k = tbl !! k.
Proof.
  intros tbl'. subst tbl'. split.
  - rewrite handle_final.
    destruct (tbl !! addressed r) as [row|] eqn:Hrow; [|done].
    by apply dom_insert_lookup_L.
  - intros k Hk. rewrite handle_lookup.
    destruct (tbl !! k) as [row|]; cbn; [|done].
    case_decide; [congruence|done].
Qed.

(** X8. Requests about two different tokens can be served in either
    order: the table in the end is the same, and so is each answer. *)
Theorem requests_on_distinct_invites_commute `{StatusRule}
    (V : gmap jsstring Verifier) (r1 r2 : Request) (t1 t2 : Time)
    (tbl : Table) :
  addressed r1 ≠ addressed r2 →
  replay V [(t1, r1); (t2, r2)] tbl = replay V [(t2, r2); (t1, r1)] tbl
  ∧ outcome (serve (handle V r2) t2 (final (serve (handle V r1) t1 tbl)))
    = outcome (serve (handle V r2) t2 tbl)
  ∧ outcome (serve (handle V r1) t1 (final (serve (handle V r2) t2 tbl)))
    = outcome (serve (handle V r1) t1 tbl).
Proof.
  intros Hne. split; [|split].
  - cbn. apply map_eq. intros k. rewrite !handle_lookup.
    destruct (tbl !! k) as [row|]; cbn; [|done].
    repeat case_decide; congruence.
  - apply handle_outcome_local. rewrite handle_lookup.
    destruct (tbl !! addressed r2) as [row|]; cbn; [|done].
    case_decide; [congruence|done].
  - apply handle_outcome_local. rewrite handle_lookup.
    destruct (tbl !! addressed r1) as [row|]; cbn; [|done].
    case_decide; [congruence|done].
Qed.

(** X9. No RSVP without the puzzle: if every unsolved row of the table
    has its RSVP columns unset, this is still so after any sequence of
    requests, whatever the registry. *)
Theorem rsvp_only_behind_the_gate `{StatusRule}
    (V : gmap jsstring Verifier) (rs : list (Time * Request))
    (tbl : Table) :
  gated tbl → gated (replay V rs tbl).
Proof.
  revert tbl. induction rs as [|[now r] rs IH]; intros tbl Hgated; cbn.
  - exact Hgated.
  - apply IH. intros k row'. rewrite handle_lookup.
    destruct (tbl !! k) as [row|] eqn:Hrow; cbn; [|discriminate].
    intros [= <-]. specialize (Hgated k row Hrow). cbn in Hgated.
    case_decide; [|done]. by apply row_after_behind_gate.
Qed.

(** X10. Over any sequence of requests an invite keeps its event, its
    guest name and its creation time, and a token that is not in the
    table is still not in it. *)
Theorem identity_columns_never_change `{StatusRule}
    (V : gmap jsstring Verifier) (rs : list (Time * Request))
    (tbl : Table) (token : jsstring) :
  match tbl !! token with
  | Some row =>
      ∃ row' : InviteRow,
        replay V rs tbl !! token = Some row'
        ∧ event_slug row' = event_slug row
        ∧ guest_name row' = guest_name row
        ∧ created_at row' = created_at row
  | None => replay V rs tbl !! token = None
  end.
Proof.
  revert tbl. induction rs as [|[now r] rs IH]; intros tbl; cbn.
  - destruct (tbl !! token) as [row|]; [by exists row|done].
  - specialize (IH (final (serve (handle V r) now tbl))).
    rewrite handle_lookup in IH.
    destruct (tbl !! token) as [row|]; cbn in IH; [|done].
    destruct IH as (row' & Hrow' & Hslug & Hname & Hat).
    exists row'. split; [done|].
    case_decide; [|done].
    destruct (row_after_identity V r now row) as (Hslug1 & Hname1 & Hat1).
    repeat split; congruence.
Qed.

(** X11. A newly inserted invite is locked: the invite-state route shows
    it unsolved and without RSVP, and the RSVP route refuses it with 403,
    whatever the payload, and writes nothing. *)
Theorem inserted_invite_starts_locked `{StatusRule} (tbl : Table)
    (token slug name : jsstring) (created now : Time) (payload : value) :
  let tbl' := <[token := inserted_row slug name created]> tbl in
  serve (get_invite token) now tbl'
  = {| outcome := Normal {| status := 200;
                            body := JObj [
                              (js "guest_name", JStr name);
                              (js "event_slug", JStr slug);
                              (js "puzzle_solved", JBool false);
                              (js "has_rsvp", JBool false) ] |};
       final := tbl';
       calls := [CallGetInvite token] |}
  ∧ serve (post_rsvp token payload) now tbl'
    = {| outcome := Normal {| status := 403;
                              body := error "Puzzle not yet solved" |};
         final := tbl';
         calls := [CallGetInvite token] |}.
Proof.
  intros tbl'. subst tbl'. rewrite serve_get_invite, serve_post_rsvp.
  unfold rsvp_run. rewrite lookup_insert_eq. done.
Qed.

(** X12. The whole way through: an unsolved dinner-party invite whose
    holder submits an answer that trims and lower-cases to the phrase is
    told [{solved: true}]; the RSVP that follows succeeds; the invite
    state then shows [puzzle_solved] and [has_rsvp] both true, and the
    row is the old one with the solve time and the RSVP written in. *)
Theorem solve_then_rsvp_then_view `{Host} `{StatusRule}
    (token : jsstring) (members : list (jsstring * value)) (s : jsstring)
    (payload : value) (t1 t2 t3 : Time) (tbl : Table) (row : InviteRow) :
  tbl !! token = Some row →
  event_slug row = js "dinner-party-march-2026" →
  truthy (puzzle_solved row) = false →
  own_member members (js "answer") = JStr s →
  toLowerCase (trim s) = js "the stars align at midnight" →
  let solve := serve (post_puzzle_verify verifiers (event_slug row) token
                        (JObj members)) t1 tbl in
  let rsvp := serve (post_rsvp token payload) t2 (final solve) in
  let view := serve (get_invite token) t3 (final rsvp) in
  outcome solve = Normal (solved_is true)
  ∧ outcome rsvp = Normal success
  ∧ outcome view
    = Normal {| status := 200;
                body := JObj [
                  (js "guest_name", JStr (guest_name row));
                  (js "event_slug", JStr (event_slug row));
                  (js "puzzle_solved", JBool true);
                  (js "has_rsvp", JBool true) ] |}
  ∧ final view !! token = Some (with_rsvp t2 payload (with_solved t1 row)).
Proof.
  intros Hrow Hslug Hu Hanswer Hphrase solve rsvp view.
  subst solve rsvp view.
  rewrite serve_get_invite, serve_post_rsvp, serve_post_puzzle_verify.
  unfold verify_run. rewrite Hrow.
  rewrite bool_decide_eq_false_2 by (intros Hne; by apply Hne).
  rewrite Hu, Hslug. unfold verifiers.
  rewrite lookup_singleton_eq, verify_by_cases. cbn. rewrite Hanswer.
  rewrite bool_decide_eq_true_2 by done. cbn.
  rewrite (markSolved_unsolved _ _ _ _ Hrow Hu).
  unfold rsvp_run. rewrite lookup_insert_eq. cbn.
  rewrite lookup_insert_eq. unfold invite_view. cbn. rewrite Hslug. done.
Qed.

(** X13. A route throws only what a verifier throws: if an exception
    leaves the handler of a request, and the request is not a puzzle
    attempt at a slug naming a member the barrel object inherits, then
    the request is a puzzle attempt on an unsolved invite of the named
    event, and the exception is the one the registered verifier threw on
    the submission.  The RSVP and the invite-state routes never throw. *)
Theorem routes_throw_only_what_the_verifier_throws `{StatusRule}
    (V : gmap jsstring Verifier) (r : Request) (now : Time) (tbl : Table)
    (e : exn) :
  (∀ (slug token : jsstring) (submission : value),
     r = PuzzleAttempt slug token submission → inherited slug = false) →
  outcome (serve (handle V r) now tbl) = Throw e →
  ∃ (slug token : jsstring) (submission : value) (verifier : Verifier)
    (row : InviteRow),
    r = PuzzleAttempt slug token submission
    ∧ V !! slug = Some verifier ∧ verifier submission = Throw e
    ∧ tbl !! token = Some row ∧ event_slug row = slug
    ∧ truthy (puzzle_solved row) = false.
Proof.
  intros _.
  destruct r as [slug token submission|token payload|token]; cbn.
  - rewrite serve_post_puzzle_verify. unfold verify_run.
    destruct (tbl !! token) as [row|] eqn:Hrow; cbn; [|discriminate].
    case_bool_decide as Hslug; cbn; [discriminate|].
    destruct (truthy (puzzle_solved row)) eqn:Hu; cbn; [discriminate|].
    destruct (V !! slug) as [verifier|] eqn:Hv; cbn; [|discriminate].
    destruct (verifier submission) as [[|]|e'] eqn:Hres; cbn;
      try discriminate.
    intros [= ->]. exists slug, token, submission, verifier, row. done.
  - rewrite serve_post_rsvp. unfold rsvp_run.
    destruct (tbl !! token) as [row|]; cbn; [|discriminate].
    destruct (truthy (puzzle_solved row)); discriminate.
  - rewrite serve_get_invite. discriminate.
Qed.

(** X14. The answer of the verify route and the RSVP gate agree, at a
    slug that names no member the barrel object inherits: after
    [{solved: true}] an RSVP for the token is accepted, after
    [{solved: false}] it is refused with 403. *)
Theorem solved_answer_opens_rsvp `{StatusRule}
    (V : gmap jsstring Verifier) (slug token : jsstring)
    (submission payload : value) (now now' : Time) (tbl : Table)
    (b : bool) :
  inherited slug = false →
  let attempt := serve (post_puzzle_verify V slug token submission)
                       now tbl in
  outcome attempt = Normal (solved_is b) →
  outcome (serve (post_rsvp token payload) now' (final attempt))
  = Normal (if b then success else not_yet_solved).
Proof.
  intros _ attempt. subst attempt.
  rewrite serve_post_rsvp, serve_post_puzzle_verify.
  unfold verify_run, rsvp_run.
  destruct (tbl !! token) as [row|] eqn:Hrow; cbn; [|intros [=]].
  case_bool_decide as Hslug; cbn; [intros [=]|].
  destruct (truthy (puzzle_solved row)) eqn:Hu; cbn.
  { intros [= <-]. by rewrite Hrow, Hu. }
  destruct (V !! slug) as [verifier|]; cbn; [|intros [=]].
  destruct (verifier submission) as [[|]|e]; cbn; [| |discriminate].
  - intros [= <-]. rewrite (markSolved_unsolved _ _ _ _ Hrow Hu).
    by rewrite lookup_insert_eq.
  - intros [= <-]. by rewrite Hrow, Hu.
Qed.

(** X15. The verify route is idempotent at a slug that names no member
    the barrel object inherits: the same request served a second time,
    at any time, gets the answer of the first and leaves the table as the
    first left it. *)
Theorem repeated_attempt_is_idempotent `{StatusRule}
    (V : gmap jsstring Verifier) (slug token : jsstring)
    (submission : value) (t1 t2 : Time) (tbl : Table) :
  inherited slug = false →
  let first := serve (post_puzzle_verify V slug token submission) t1 tbl in
  let second :=
    serve (post_puzzle_verify V slug token submission) t2 (final first) in
  outcome second = outcome first ∧ final second = final first.
Proof.
  intros _ first second. subst first second.
  rewrite !serve_post_puzzle_verify. unfold verify_run.
  destruct (tbl !! token) as [row|] eqn:Hrow; cbn; [|by rewrite Hrow].
  case_bool_decide as Hslug; cbn.
  { rewrite Hrow. by rewrite bool_decide_eq_true_2. }
  destruct (truthy (puzzle_solved row)) eqn:Hu; cbn.
  { rewrite Hrow. rewrite bool_decide_eq_false_2 by (intros Hne; by apply Hne).
    by rewrite Hu. }
  destruct (V !! slug) as [verifier|] eqn:Hv; cbn.
  - destruct (verifier submission) as [[|]|e] eqn:Hres; cbn.
    + rewrite (markSolved_unsolved _ _ _ _ Hrow Hu), lookup_insert_eq. cbn.
      by rewrite bool_decide_eq_false_2 by (intros Hne; by apply Hne).
    + rewrite Hrow.
      rewrite bool_decide_eq_false_2 by (intros Hne; by apply Hne).
      by rewrite Hu, ?Hv, ?Hres.
    + rewrite Hrow.
      rewrite bool_decide_eq_false_2 by (intros Hne; by apply Hne).
      by rewrite Hu, ?Hv, ?Hres.
  - rewrite Hrow.
    rewrite bool_decide_eq_false_2 by (intros Hne; by apply Hne).
    by rewrite Hu, ?Hv.
Qed.

(* ===================================================================== *)
(** ** More concrete runs *)
(* ===================================================================== *)

Import MoreSamples.

Lemma verify_ignores_padding_witness :
  is_padding (js "  ") = true
  ∧ @verify host padded = @verify host exact
  ∧ @verify host exact = Normal true.
Proof.
  split; [reflexivity|]. split; [|reflexivity].
  apply (@verify_ignores_padding host
           [(js "name", JStr (js "x"));
            (js "answer", JStr (js "  the stars align at midnight  "))]
           [(js "answer", JStr (js "the stars align at midnight"))]
           (js "  ") (js "the stars align at midnight") (js "  "));
    reflexivity.
Defined.

Lemma malformed_submission_throws_out_of_verify_route_witness :
  table1 !! T1 = Some row1
  ∧ malformed numeric
  ∧ outcome (serve (post_puzzle_verify vs E1 T1 numeric) 2000 table1)
    = Throw TypeError
  ∧ final (serve (post_puzzle_verify vs E1 T1 numeric) 2000 table1) = table1.
Proof.
  assert (Hbad : malformed numeric) by exact I.
  destruct (@malformed_submission_throws_out_of_verify_route host T1 numeric
              2000 table1 row1 eq_refl eq_refl eq_refl Hbad)
    as (Hout & Hsame & _).
  repeat split; assumption.
Defined.

Lemma unknown_token_same_answer_on_every_route_witness :
  table1 !! T2 = None
  ∧ outcome (serve (post_puzzle_verify vs E1 T2 good) 2000 table1)
    = outcome (serve (get_invite T2) 2000 table1)
  ∧ outcome (serve (post_rsvp (H := rule) T2 yes) 2000 table1)
    = outcome (serve (get_invite T2) 2000 table1).
Proof.
  destruct (@unknown_token_same_answer_on_every_route rule vs E1 T2 good yes
              2000 table1 eq_refl) as (Ha & Hb & Hc).
  split; [reflexivity|]. by rewrite Ha, Hb, Hc.
Defined.

Lemma requests_on_distinct_invites_commute_witness :
  T1 ≠ T2
  ∧ replay (H := rule) vs
      [(2000, PuzzleAttempt E1 T1 good); (3000, PuzzleAttempt E2 T2 good)]
      table2
    = replay (H := rule) vs
        [(3000, PuzzleAttempt E2 T2 good); (2000, PuzzleAttempt E1 T1 good)]
        table2.
Proof.
  assert (Hne : T1 ≠ T2) by (vm_compute; discriminate).
  split; [exact Hne|].
  apply (@requests_on_distinct_invites_commute rule vs
           (PuzzleAttempt E1 T1 good) (PuzzleAttempt E2 T2 good)
           2000 3000 table2 Hne).
Defined.

Lemma rsvp_only_behind_the_gate_witness :
  gated table2
  ∧ gated (replay (H := rule) vs
             [(2000, RsvpSubmit T1 yes); (3000, PuzzleAttempt E1 T1 good);
              (4000, RsvpSubmit T1 no); (5000, RsvpSubmit T2 yes)]
             table2).
Proof.
  assert (Hgated : gated table2).
  { unfold gated, table2. apply map_Forall_insert_2; [reflexivity|].
    apply map_Forall_singleton. reflexivity. }
  split; [exact Hgated|].
  by apply (@rsvp_only_behind_the_gate rule vs).
Defined.

Lemma solve_then_rsvp_then_view_witness :
  table1 !! T1 = Some row1
  ∧ toLowerCase (Host := host) (trim (js "  The Stars Align at MIDNIGHT "))
    = js "the stars align at midnight"
  ∧ final (serve (get_invite T1) 4000
             (final (serve (post_rsvp (H := rule) T1 yes) 3000
                       (final (serve (post_puzzle_verify vs E1 T1 good)
                                 2000 table1)))))
    !! T1
    = Some (with_rsvp (H := rule) 3000 yes (with_solved 2000 row1)).
Proof.
  destruct (@solve_then_rsvp_then_view host rule T1
              [(js "answer", JStr (js "  The Stars Align at MIDNIGHT "))]
              (js "  The Stars Align at MIDNIGHT ") yes 2000 3000 4000
              table1 row1 eq_refl eq_refl eq_refl eq_refl eq_refl)
    as (_ & _ & _ & Hrow).
  split; [reflexivity|]. split; [reflexivity|exact Hrow].
Defined.

Lemma routes_throw_only_what_the_verifier_throws_witness :
  inherited E1 = false
  ∧ outcome (serve (handle (H := rule) broken_registry
                      (PuzzleAttempt E1 T1 bad)) 2000 table1)
    = Throw (Thrown (JStr (js "boom")))
  ∧ ∃ (slug token : jsstring) (submission : value) (verifier : Verifier)
      (row : InviteRow),
      PuzzleAttempt E1 T1 bad = PuzzleAttempt slug token submission
      ∧ broken_registry !! slug = Some verifier
      ∧ verifier submission = Throw (Thrown (JStr (js "boom")))
      ∧ table1 !! token = Some row ∧ event_slug row = slug
      ∧ truthy (puzzle_solved row) = false.
Proof.
  split; [reflexivity|]. split; [reflexivity|].
  apply (@routes_throw_only_what_the_verifier_throws rule broken_registry
           (PuzzleAttempt E1 T1 bad) 2000 table1
           (Thrown (JStr (js "boom")))).
  - intros slug token submission [= <- _ _]. reflexivity.
  - reflexivity.
Defined.

Lemma solved_answer_opens_rsvp_witness :
  inherited E1 = false
  ∧ outcome (serve (post_puzzle_verify vs E1 T1 good) 2000 table1)
    = Normal (solved_is true)
  ∧ outcome (serve (post_rsvp (H := rule) T1 yes) 3000
               (final (serve (post_puzzle_verify vs E1 T1 good) 2000 table1)))
    = Normal success
  ∧ outcome (serve (post_rsvp (H := rule) T1 yes) 3000
               (final (serve (post_puzzle_verify vs E1 T1 bad) 2000 table1)))
    = Normal not_yet_solved.
Proof.
  split; [reflexivity|]. split; [reflexivity|]. split.
  - apply (@solved_answer_opens_rsvp rule vs E1 T1 good yes 2000 3000 table1
             true); reflexivity.
  - apply (@solved_answer_opens_rsvp rule vs E1 T1 bad yes 2000 3000 table1
             false); reflexivity.
Defined.

Lemma barrel_solves_exactly_on_the_phrase_witness :
  inherited E1 = false
  ∧ final (serve (post_puzzle_verify vs E1 T1 good) 2000 table2) ≠ table2
  ∧ outcome (serve (post_puzzle_verify vs E1 T1 good) 2000 table2)
    = Normal (solved_is true)
  ∧ final (serve (post_puzzle_verify vs E1 T1 good) 2000 table2)
    = <[T1 := with_solved 2000 row1]> table2.
Proof.
  assert (HE1 : inherited E1 = false) by reflexivity.
  destruct (@barrel_solves_exactly_on_the_phrase host E1 T1 good 2000 table2
              HE1) as ((_ & Hchanges) & Hopens).
  assert (Hphrase : E1 = js "dinner-party-march-2026"
            ∧ table2 !! T1 = Some row1 ∧ event_slug row1 = E1
            ∧ truthy (puzzle_solved row1) = false
            ∧ ∃ s : jsstring,
                member good (js "answer") = Normal (JStr s)
                ∧ toLowerCase (Host := host) (trim s)
                  = js "the stars align at midnight").
  { split; [reflexivity|]. split; [reflexivity|]. split; [reflexivity|].
    split; [reflexivity|].
    exists (js "  The Stars Align at MIDNIGHT "). split; reflexivity. }
  destruct (Hopens row1 Hphrase) as (Hout & Hfin).
  split; [exact HE1|]. split; [|split; [exact Hout|exact Hfin]].
  apply Hchanges. exists row1. exact Hphrase.
Defined.

Lemma repeated_attempt_is_idempotent_witness :
  inherited E1 = false
  ∧ outcome (serve (post_puzzle_verify vs E1 T1 good) 9000
               (final (serve (post_puzzle_verify vs E1 T1 good) 2000 table1)))
    = outcome (serve (post_puzzle_verify vs E1 T1 good) 2000 table1)
  ∧ final (serve (post_puzzle_verify vs E1 T1 good) 9000
             (final (serve (post_puzzle_verify vs E1 T1 good) 2000 table1)))
    = final (serve (post_puzzle_verify vs E1 T1 good) 2000 table1).
Proof.
  split; [reflexivity|].
  apply (@repeated_attempt_is_idempotent rule vs E1 T1 good 2000 9000 table1).
  reflexivity.
Defined.
